(** * The Rancher cloud provider of the cluster autoscaler

    A shallow embedding of
    [cluster-autoscaler/cloudprovider/rancher/rancher_cloud_provider.go]
    and the properties of its facade: node-to-group resolution, capability
    signalling, enumeration, construction, clean-up and refresh.

    The facade forwards most of its work to a [*RancherManager], whose
    methods are declared in another file of the package.  The facade is
    therefore embedded over an interface ([RancherManager.API]) listing the
    manager methods it calls; every property of the facade's own code is
    proved for all implementations of that interface. *)

From stdpp Require Import base option list gmap strings.
From Stdlib Require Import String Ascii.

Local Open Scope string_scope.

(** ** Go values *)

(** An [error] interface value.  [ErrNotImplemented] is the package-level
    sentinel [cloudprovider.ErrNotImplemented], which callers recognise by
    identity; [errorString] is an error carrying only a text, as built by
    [fmt.Errorf] with a format that has no wrapping verb.  A nil error is
    [None : option error]. *)
Inductive error : Type :=
| ErrNotImplemented
| errorString (text : string).

#[global] Instance error_eq_dec : EqDecision error.
Proof. solve_decision. Defined.

(** Declarations that the file imports from other packages and uses only
    opaquely: argument and result types it never inspects, and two
    constants of package [cloudprovider]. *)
Class Imports : Type := {
  AutoscalingOptions : Type;          (* config.AutoscalingOptions *)
  NodeGroupDiscoveryOptions : Type;   (* cloudprovider.NodeGroupDiscoveryOptions *)
  PricingModel : Type;                (* cloudprovider.PricingModel *)
  Taint : Type;                       (* v1.Taint *)
  Quantity : Type;                    (* resource.Quantity *)
  RancherProviderName : string;       (* cloudprovider.RancherProviderName *)
  ErrNotImplementedText : string      (* cloudprovider.ErrNotImplemented.Error() *)
}.

(** [err.Error()] *)
Definition Error `{Imports} (err : error) : string :=
  match err with
  | ErrNotImplemented => ErrNotImplementedText
  | errorString text => text
  end.

(** A [*cloudprovider.ResourceLimiter]: nil or the address of a limiter.
    Two such pointers are the same instance exactly when they are equal. *)
Definition ResourceLimiterPtr : Type := option N.

Module v1.
(** [v1.Node]; the facade reads only its name. *)
Record Node : Type := { Name : string }.
End v1.

(** [RancherNode], a node as the manager caches it.  The facade reads the
    three fields below. *)
Record RancherNode : Type := {
  NodePoolID : string;
  NodeName : string;
  ID : string
}.

(** ** Formatting *)

(** An operand of a formatting call. *)
Inductive Arg : Type :=
| AString (s : string)
| AError (err : error).

Definition showArg `{Imports} (a : Arg) : string :=
  match a with
  | AString s => s
  | AError err => Error err
  end.

(** [fmt.Sprintf] for the verbs the file uses, [%s] and [%v], which print a
    string as it is and an error by its [Error()] text; [%%] prints a percent
    sign.  A verb without operand prints Go's [%!s(MISSING)].  Every call in
    the file passes as many operands as its format has verbs; other verbs
    do not occur in it and are copied through unformatted. *)
Fixpoint Sprintf `{Imports} (format : string) (args : list Arg) : string :=
  match format with
  | EmptyString => EmptyString
  | String c rest =>
      if Ascii.eqb c "%" then
        match rest with
        | EmptyString => "%!(NOVERB)"
        | String v rest' =>
            if Ascii.eqb v "%" then String "%" (Sprintf rest' args)
            else if Ascii.eqb v "s" || Ascii.eqb v "v" then
              match args with
              | a :: args' => showArg a +:+ Sprintf rest' args'
              | [] => String "%" (String "!" (String v "(MISSING)")) +:+ Sprintf rest' []
              end
            else String c (String v (Sprintf rest' args))
        end
      else String c (Sprintf rest args)
  end.

(** ** Processes *)

Inductive Severity : Type := ERROR | FATAL.

(** A line written through [klog]. *)
Record LogLine : Type := { severity : Severity; message : string }.

(** How a call ends: it returns, it panics (a nil pointer is dereferenced),
    or the process exits ([klog.Fatalf]). *)
Inductive Outcome (A : Type) : Type :=
| Returns (a : A)
| Panics
| Exits.
Arguments Returns {A} a.
Arguments Panics {A}.
Arguments Exits {A}.

(** The state a call runs in: [world] is whatever the manager's methods read
    and write (its objects, its cache, the backend behind it), [logged] the
    lines written to the log so far, oldest line first. *)
Record Process (W : Type) : Type := { world : W; logged : list LogLine }.
Arguments world {W} p.
Arguments logged {W} p.

Definition Go (W A : Type) : Type := Process W → Outcome A * Process W.

Section GoMonad.
Context {W : Type}.

Definition go_ret {A} (a : A) : Go W A := λ p, (Returns a, p).

Definition go_bind {A B} (c : Go W A) (k : A → Go W B) : Go W B :=
  λ p, match c p with
       | (Returns a, p') => k a p'
       | (Panics, p') => (Panics, p')
       | (Exits, p') => (Exits, p')
       end.

(** A call of a function that only touches [world] and always returns. *)
Definition call {A} (f : W → A * W) : Go W A :=
  λ p, let '(a, w) := f (world p) in
       (Returns a, {| world := w; logged := logged p |}).

(** [*ptr] *)
Definition deref {A} (ptr : option A) : Go W A :=
  λ p, match ptr with
       | Some a => (Returns a, p)
       | None => (Panics, p)
       end.

Definition log (line : LogLine) : Go W unit :=
  λ p, (Returns tt, {| world := world p; logged := logged p ++ [line] |}).
End GoMonad.

#[global] Instance Go_ret {W} : MRet (Go W) := @go_ret W.
#[global] Instance Go_bind {W} : MBind (Go W) := λ A B k c, go_bind c k.

Module klog.
(** [klog.Errorf] *)
Definition Errorf `{Imports} {W} (format : string) (args : list Arg) : Go W unit :=
  log {| severity := ERROR; message := Sprintf format args |}.

(** [klog.Fatalf]: writes the line, then ends the process. *)
Definition Fatalf `{Imports} {W} {A} (format : string) (args : list Arg) : Go W A :=
  λ p, (Exits, snd (log {| severity := FATAL; message := Sprintf format args |} p)).
End klog.

Module fmt.
(** [fmt.Errorf] *)
Definition Errorf `{Imports} (format : string) (args : list Arg) : error :=
  errorString (Sprintf format args).
End fmt.

(** ** The manager, as the facade sees it *)

Module rancherNodeGroup.
(** [rancherNodeGroup], the handle of one node pool: the manager it asks
    and the pool's id.  [Mgr] is the type of [*RancherManager] values. *)
Record t (Mgr : Type) : Type := { manager : Mgr; id : string }.
Arguments manager {Mgr} _.
Arguments id {Mgr} _.
End rancherNodeGroup.

(** A [cloudprovider.NodeGroup] interface value: nil or a node-group handle
    of this package. *)
Definition NodeGroup (Mgr : Type) : Type := option (rancherNodeGroup.t Mgr).

Module RancherManager.
(** The functions of the manager that the facade calls, with their Go
    signatures: a pair of results is a pair, a nil pointer or nil error is
    [None], a slice is a list (a nil slice is the empty list).  Each one
    may read and update the manager's [W]orld. *)
Class API (W Mgr : Type) : Type := {
  GetCachedNodeGroups : Mgr → W → (list (NodeGroup Mgr) * option error) * W;
  GetCachedNodeForKubernetesNode :
    Mgr → string → W → (option RancherNode * option error) * W;
  Cleanup : Mgr → W → option error * W;
  Refresh : Mgr → W → option error * W
}.

(** [BuildRancherManager], the constructor of the manager. *)
Class Builder (W Mgr : Type) : Type :=
  BuildRancherManager : W → (Mgr * option error) * W.
End RancherManager.

(** ** The facade *)

(** [GPULabel] is the label added to nodes with GPU resource. *)
Definition GPULabel : string := "nodes.pkds.it/gpu-node".

Record rancherCloudProvider (Mgr : Type) : Type := {
  manager : Mgr;
  resourceLimiter : ResourceLimiterPtr
}.
Arguments manager {Mgr} _.
Arguments resourceLimiter {Mgr} _.

(** A [cloudprovider.CloudProvider] interface value: nil or a provider of
    this package. *)
Definition CloudProvider (Mgr : Type) : Type := option (rancherCloudProvider Mgr).

Section Facade.
Context {imports : Imports} {W Mgr : Type} {builder : RancherManager.Builder W Mgr}.

(** [BuildRancherCloudProvider] creates new rancherCloudProvider *)
Definition BuildRancherCloudProvider
    (manager : Mgr) (resourceLimiter : ResourceLimiterPtr)
  : Go W (CloudProvider Mgr * option error) :=
  let rancher := {| manager := manager; resourceLimiter := resourceLimiter |} in
  mret (Some rancher, None).

(** [BuildRancher] builds Rancher cloud provider, manager etc. *)
Definition BuildRancher
    (opts : AutoscalingOptions) (do : NodeGroupDiscoveryOptions)
    (rl : ResourceLimiterPtr)
  : Go W (CloudProvider Mgr) :=
  '(manager, err) ← call RancherManager.BuildRancherManager;
  match err with
  | Some e => klog.Fatalf "Failed to create Rancher Manager: %v" [AError e]
  | None => mret tt
  end;;
  '(provider, err) ← BuildRancherCloudProvider manager rl;
  match err with
  | Some e => klog.Fatalf "Failed to create Rancher cloud provider: %v" [AError e]
  | None => mret tt
  end;;
  mret provider.
End Facade.

Module Provider.
Section Methods.
Context {imports : Imports} {W Mgr : Type} {api : RancherManager.API W Mgr}.
Implicit Type cp : rancherCloudProvider Mgr.

(** [Name] returns name of the cloud provider. *)
Definition Name cp : Go W string :=
  mret RancherProviderName.

(** [NodeGroups] returns all node groups configured for this cloud
    provider. *)
Definition NodeGroups cp : Go W (list (NodeGroup Mgr)) :=
  '(ngs, err) ← call (RancherManager.GetCachedNodeGroups (manager cp));
  match err with
  | Some e =>
      klog.Errorf "failed to get node pools: %s" [AError e];;
      mret []
  | None => mret ngs
  end.

(** [NodeGroupForNode] returns the node group for the given node, nil if
    the node should not be processed by cluster autoscaler, or non-nil
    error if such occurred. *)
Definition NodeGroupForNode cp (node : v1.Node)
  : Go W (NodeGroup Mgr * option error) :=
  '(rancherNode, err) ←
    call (RancherManager.GetCachedNodeForKubernetesNode (manager cp) (v1.Name node));
  match err with
  | Some e => mret (None, Some e)
  | None =>
      rancherNode ← deref rancherNode;
      if String.eqb (NodePoolID rancherNode) "" then
        mret (None,
              Some (fmt.Errorf "missing node pool name for node %s (%s)"
                      [AString (NodeName rancherNode); AString (ID rancherNode)]))
      else
        mret (Some {| rancherNodeGroup.manager := manager cp;
                      rancherNodeGroup.id := NodePoolID rancherNode |},
              None)
  end.

(** [Pricing] returns pricing model for this cloud provider or error if
    not available. *)
Definition Pricing cp : Go W (option PricingModel * option error) :=
  mret (None, Some ErrNotImplemented).

(** [GetAvailableMachineTypes] get all machine types that can be requested
    from the cloud provider. *)
Definition GetAvailableMachineTypes cp : Go W (list string * option error) :=
  mret ([], Some ErrNotImplemented).

(** [NewNodeGroup] builds a theoretical node group based on the node
    definition provided. *)
Definition NewNodeGroup cp
    (machineType : string) (labels systemLabels : gmap string string)
    (taints : list Taint) (extraResources : gmap string Quantity)
  : Go W (NodeGroup Mgr * option error) :=
  mret (None, Some ErrNotImplemented).

(** [GetResourceLimiter] returns struct containing limits (max, min) for
    resources (cores, memory etc.). *)
Definition GetResourceLimiter cp : Go W (ResourceLimiterPtr * option error) :=
  mret (resourceLimiter cp, None).

(** [GPULabel] returns the label added to nodes with GPU resource. *)
Definition GPULabel cp : Go W string :=
  mret GPULabel.

(** [GetAvailableGPUTypes] return all available GPU types cloud provider
    supports.  The nil map it returns has no keys. *)
Definition GetAvailableGPUTypes cp : Go W (gset string) :=
  mret ∅.

(** [Cleanup] cleans up open resources before the cloud provider is
    destroyed, i.e. go routines etc. *)
Definition Cleanup cp : Go W (option error) :=
  call (RancherManager.Cleanup (manager cp)).

(** [Refresh] is called before every main loop and can be used to
    dynamically update cloud provider state. *)
Definition Refresh cp : Go W (option error) :=
  call (RancherManager.Refresh (manager cp)).
End Methods.
End Provider.

(** ** Runs of the control loop *)

(** The calls a control-loop tick makes on the provider to synchronise and
    to read, and what each one answers. *)
Inductive Call : Type :=
| CallRefresh
| CallNodeGroups
| CallNodeGroupForNode (node : v1.Node).

Inductive Reply (Mgr : Type) : Type :=
| ReplyRefresh (o : Outcome (option error))
| ReplyNodeGroups (o : Outcome (list (NodeGroup Mgr)))
| ReplyNodeGroupForNode (o : Outcome (NodeGroup Mgr * option error)).
Arguments ReplyRefresh {Mgr} o.
Arguments ReplyNodeGroups {Mgr} o.
Arguments ReplyNodeGroupForNode {Mgr} o.

Section Runs.
Context {imports : Imports} {W Mgr : Type} {api : RancherManager.API W Mgr}.
Implicit Type cp : rancherCloudProvider Mgr.

Definition invoke cp (c : Call) (p : Process W) : Reply Mgr * Process W :=
  match c with
  | CallRefresh =>
      let '(o, p') := Provider.Refresh cp p in (ReplyRefresh o, p')
  | CallNodeGroups =>
      let '(o, p') := Provider.NodeGroups cp p in (ReplyNodeGroups o, p')
  | CallNodeGroupForNode node =>
      let '(o, p') := Provider.NodeGroupForNode cp node p in
      (ReplyNodeGroupForNode o, p')
  end.

(** The calls made one after the other; the replies come in call order. *)
Fixpoint run cp (cs : list Call) (p : Process W) : list (Reply Mgr) * Process W :=
  match cs with
  | [] => ([], p)
  | c :: cs' =>
      let '(r, p') := invoke cp c p in
      let '(rs, p'') := run cp cs' p' in
      (r :: rs, p'')
  end.
End Runs.

(** How many calls of [Refresh] a run makes. *)
Fixpoint countRefresh (cs : list Call) : nat :=
  match cs with
  | [] => 0
  | CallRefresh :: cs' => S (countRefresh cs')
  | _ :: cs' => countRefresh cs'
  end.

(** ** A scripted manager *)

(** A manager whose every method gives a scripted answer and changes
    nothing, the way a test double would: it lets the facade be run on each
    shape of answer the manager's signatures allow. *)
Module Scripted.
Record Script : Type := {
  built : option error;
  groups : list (NodeGroup unit) * option error;
  lookup : string → option RancherNode * option error;
  cleaned : option error;
  refreshed : option error
}.

#[global] Instance api : RancherManager.API Script unit := {
  GetCachedNodeGroups _ w := (groups w, w);
  GetCachedNodeForKubernetesNode _ name w := (lookup w name, w);
  Cleanup _ w := (cleaned w, w);
  Refresh _ w := (refreshed w, w)
}.

#[global] Instance builder : RancherManager.Builder Script unit :=
  λ w, ((tt, built w), w).

(** Stand-ins for the imported declarations. *)
#[global] Instance imports : Imports := {|
  AutoscalingOptions := unit;
  NodeGroupDiscoveryOptions := unit;
  PricingModel := unit;
  Taint := unit;
  Quantity := unit;
  RancherProviderName := "rancher";
  ErrNotImplementedText := "Not implemented"
|}.

(** A cache of two nodes: "worker-7" in pool "pool-a", "worker-8" without a
    pool id.  Any other name is reported as unknown. *)
Definition cache (name : string) : option RancherNode * option error :=
  if String.eqb name "worker-7" then
    (Some {| NodePoolID := "pool-a"; NodeName := "worker-7"; ID := "m-7" |}, None)
  else if String.eqb name "worker-8" then
    (Some {| NodePoolID := ""; NodeName := "worker-8"; ID := "m-8" |}, None)
  else (None, Some (errorString ("node not found: " +:+ name))).

Definition script : Script := {|
  built := None;
  groups := ([], Some (errorString "connection refused"));
  lookup := cache;
  cleaned := None;
  refreshed := None
|}.

Definition process : Process Script := {| world := script; logged := [] |}.

Definition provider : rancherCloudProvider unit :=
  {| manager := tt; resourceLimiter := Some 1%N |}.
End Scripted.

(** ** The manager, after the specification *)

(** The source of [RancherManager] is not among the files at hand.  What the
    specification says of it (its Cached Index, the refresh cycle, the
    clean-up) is modelled here, and the facade is run on this manager for
    the properties that the manager decides. *)
Module SpecManager.
Section Model.
(** The metadata kept for a pool, and the answer for a node that the index
    does not hold: the specification fixes neither. *)
Context {GroupMeta : Type} (unknownNode : string → option RancherNode * option error).

(** Modelled from the spec: the Cached Index of the manager, missing from the
    sources; a "mapping from node identity to owning pool id, and from pool
    id to group metadata".  The cached node carries its pool id, which may
    be empty. *)
Record CachedIndex : Type := {
  nodes : gmap string RancherNode;
  pools : gmap string GroupMeta
}.

(** Modelled from the spec: what one pull of backend state yields for the
    missing manager, a complete fresh index or a communication failure. *)
Inductive Pull : Type :=
| Fresh (ix : CachedIndex)
| Failed (err : error).

(** Modelled from the spec: the state of the missing manager.  [index] is
    the installed generation of the Cached Index, [backend] what the backend
    answers to each successive pull, [pulled] the number of pulls made, and
    [released] whether the manager's resources have been released. *)
Record State : Type := {
  index : CachedIndex;
  backend : nat → Pull;
  pulled : nat;
  released : bool
}.

(** Modelled from the spec: the missing [RancherManager.Refresh], which pulls
    backend state and installs it "as a single atomic replacement of the old
    one"; "refresh failures leave the previous generation authoritative" and
    are propagated to the caller. *)
Definition Refresh (_ : unit) (st : State) : option error * State :=
  match backend st (pulled st) with
  | Fresh ix =>
      (None, {| index := ix; backend := backend st;
                pulled := S (pulled st); released := released st |})
  | Failed err =>
      (Some err, {| index := index st; backend := backend st;
                    pulled := S (pulled st); released := released st |})
  end.

(** Modelled from the spec: the missing [RancherManager.Cleanup], which
    "releases all resources held by the Manager"; "a second call is a no-op,
    not an error". *)
Definition Cleanup (_ : unit) (st : State) : option error * State :=
  if released st then (None, st)
  else (None, {| index := index st; backend := backend st;
                 pulled := pulled st; released := true |}).

(** Modelled from the spec: the missing [RancherManager.GetCachedNodeGroups]
    (the specification's [ListNodeGroups]), which answers from the current
    Cached Index with one handle per pool id. *)
Definition GetCachedNodeGroups (m : unit) (st : State)
  : (list (NodeGroup unit) * option error) * State :=
  ((λ pool, Some {| rancherNodeGroup.manager := m; rancherNodeGroup.id := pool.1 |})
     <$> map_to_list (pools (index st)),
   None, st).

(** Modelled from the spec: the missing
    [RancherManager.GetCachedNodeForKubernetesNode] (the specification's
    [ResolveNode]), which "must consult the Cached Index only". *)
Definition GetCachedNodeForKubernetesNode (_ : unit) (name : string) (st : State)
  : (option RancherNode * option error) * State :=
  match nodes (index st) !! name with
  | Some rancherNode => (Some rancherNode, None, st)
  | None => (unknownNode name, st)
  end.

(** Modelled from the spec: the missing manager as a whole, behind the
    interface the facade calls. *)
Definition api : RancherManager.API State unit := {|
  RancherManager.GetCachedNodeGroups := GetCachedNodeGroups;
  RancherManager.GetCachedNodeForKubernetesNode := GetCachedNodeForKubernetesNode;
  RancherManager.Cleanup := Cleanup;
  RancherManager.Refresh := Refresh
|}.
End Model.
Arguments CachedIndex GroupMeta : clear implicits.
Arguments Pull GroupMeta : clear implicits.
Arguments State GroupMeta : clear implicits.

(** A backend that is down from the start, behind an index of one node in
    one pool. *)
Definition stalled : State unit := {|
  index := {| nodes := {[ "worker-7" :=
                          {| NodePoolID := "pool-a"; NodeName := "worker-7"; ID := "m-7" |} ]};
              pools := {[ "pool-a" := tt ]} |};
  backend := λ _, Failed (errorString "backend unreachable");
  pulled := 0;
  released := false
|}.

Definition reportUnknown (name : string) : option RancherNode * option error :=
  (None, Some (errorString ("node not found: " +:+ name))).
End SpecManager.

(** The backend fails each of the next [k] pulls that the manager in state
    [st] makes. *)
Definition backendDown {GroupMeta} (st : SpecManager.State GroupMeta) (k : nat) : Prop :=
  ∀ n, (SpecManager.pulled st ≤ n < SpecManager.pulled st + k)%nat →
       ∃ err, SpecManager.backend st n = SpecManager.Failed err.

(** ** Reading the cache *)

Section Readings.
Context {imports : Imports} {W Mgr : Type} {api : RancherManager.API W Mgr}.
Implicit Type cp : rancherCloudProvider Mgr.

(** What the manager's cache answers when asked for [node]. *)
Definition cachedEntry cp (node : v1.Node) (p : Process W)
  : option RancherNode * option error :=
  fst (RancherManager.GetCachedNodeForKubernetesNode
         (manager cp) (v1.Name node) (world p)).

(** [node] is cached, and its entry has an empty pool id. *)
Definition cachedWithEmptyPoolID cp (node : v1.Node) (p : Process W) : Prop :=
  ∃ rancherNode,
    cachedEntry cp node p = (Some rancherNode, None) ∧ NodePoolID rancherNode = "".

(** The cache holds no entry for [node]: the backend does not own the node,
    which therefore has no pool assignment by design. *)
Definition unmanaged cp (node : v1.Node) (p : Process W) : Prop :=
  fst (cachedEntry cp node p) = None.

(** What the manager's enumeration of the cached groups answers. *)
Definition cachedGroups cp (p : Process W) : list (NodeGroup Mgr) * option error :=
  fst (RancherManager.GetCachedNodeGroups (manager cp) (world p)).
End Readings.

(** The text of the data-integrity error for a cached node without pool id. *)
Definition missingPoolText (rancherNode : RancherNode) : string :=
  "missing node pool name for node " +:+ NodeName rancherNode
    +:+ " (" +:+ ID rancherNode +:+ ")".

(** A call returned a nil group together with an error. *)
Definition returnsNilWithError {Mgr} (o : Outcome (NodeGroup Mgr * option error)) : Prop :=
  ∃ err, o = Returns (None, Some err).

(** ** Sequences of method calls *)

(** A call of any of the provider's eleven methods, with its arguments. *)
Inductive Method `{Imports} : Type :=
| MName
| MNodeGroups
| MNodeGroupForNode (node : v1.Node)
| MPricing
| MGetAvailableMachineTypes
| MNewNodeGroup (machineType : string) (labels systemLabels : gmap string string)
    (taints : list Taint) (extraResources : gmap string Quantity)
| MGetResourceLimiter
| MGPULabel
| MGetAvailableGPUTypes
| MCleanup
| MRefresh.

Section Sequences.
Context {imports : Imports} {W Mgr : Type} {api : RancherManager.API W Mgr}.
Implicit Type cp : rancherCloudProvider Mgr.

(** One method call whose results the caller drops. *)
Definition perform cp (m : Method) : Go W unit :=
  match m with
  | MName => _ ← Provider.Name cp; mret tt
  | MNodeGroups => _ ← Provider.NodeGroups cp; mret tt
  | MNodeGroupForNode node => _ ← Provider.NodeGroupForNode cp node; mret tt
  | MPricing => _ ← Provider.Pricing cp; mret tt
  | MGetAvailableMachineTypes => _ ← Provider.GetAvailableMachineTypes cp; mret tt
  | MNewNodeGroup machineType labels systemLabels taints extraResources =>
      _ ← Provider.NewNodeGroup cp machineType labels systemLabels taints
            extraResources;
      mret tt
  | MGetResourceLimiter => _ ← Provider.GetResourceLimiter cp; mret tt
  | MGPULabel => _ ← Provider.GPULabel cp; mret tt
  | MGetAvailableGPUTypes => _ ← Provider.GetAvailableGPUTypes cp; mret tt
  | MCleanup => _ ← Provider.Cleanup cp; mret tt
  | MRefresh => _ ← Provider.Refresh cp; mret tt
  end.

(** The calls made one after the other, as long as none panics. *)
Fixpoint performAll cp (ms : list Method) : Go W unit :=
  match ms with
  | [] => mret tt
  | m :: ms' => perform cp m;; performAll cp ms'
  end.

(** [cp.NodeGroupForNode(node)] on the [*v1.Node] a caller passes, which may
    be nil: the lookup's argument [node.Name] is read first, and reading it
    dereferences [node] before the manager is asked. *)
Definition NodeGroupForNodePtr cp (node : option v1.Node)
  : Go W (NodeGroup Mgr * option error) :=
  node ← deref node;
  Provider.NodeGroupForNode cp node.
End Sequences.

(** The methods whose bodies make no call on the manager. *)
Definition managerFree `{Imports} (m : Method) : bool :=
  match m with
  | MNodeGroups | MNodeGroupForNode _ | MCleanup | MRefresh => false
  | _ => true
  end.

(** More scripts for the scripted manager. *)
Module Scenario.
(** A manager that enumerates two pools. *)
Definition twoPools : Scripted.Script := {|
  Scripted.built := None;
  Scripted.groups :=
    ([Some {| rancherNodeGroup.manager := tt; rancherNodeGroup.id := "pool-a" |};
      Some {| rancherNodeGroup.manager := tt; rancherNodeGroup.id := "pool-b" |}],
     None);
  Scripted.lookup := Scripted.cache;
  Scripted.cleaned := None;
  Scripted.refreshed := None
|}.

(** A process started with one line already in its log. *)
Definition running : Process Scripted.Script := {|
  world := twoPools;
  logged := [{| severity := ERROR; message := "earlier line" |}]
|}.
End Scenario.

(** * Properties *)

Section Formatting.
Context {imports : Imports}.

Lemma append_empty_r (s : string) : s +:+ "" = s.
Proof.
  induction s as [|c s IH]; [done|].
  change (String c (s +:+ "") = String c s). by rewrite IH.
Qed.

Lemma Sprintf_missing_pool (name id : string) :
  Sprintf "missing node pool name for node %s (%s)" [AString name; AString id]
  = "missing node pool name for node " +:+ name +:+ " (" +:+ id +:+ ")".
Proof. reflexivity. Qed.

Lemma Sprintf_failed_pools (err : error) :
  Sprintf "failed to get node pools: %s" [AError err]
  = "failed to get node pools: " +:+ Error err.
Proof. cbn. by rewrite append_empty_r. Qed.
End Formatting.

Section Resolution.
Context {imports : Imports} {W Mgr : Type} {api : RancherManager.API W Mgr}.
Implicit Type cp : rancherCloudProvider Mgr.

(** The three ways [NodeGroupForNode] ends, by what the cache answers. *)
Lemma NodeGroupForNode_cases cp node (p : Process W) :
  fst (Provider.NodeGroupForNode cp node p) =
  match cachedEntry cp node p with
  | (_, Some err) => Returns (None, Some err)
  | (None, None) => Panics
  | (Some rancherNode, None) =>
      if String.eqb (NodePoolID rancherNode) ""
      then Returns (None, Some (errorString (missingPoolText rancherNode)))
      else Returns (Some {| rancherNodeGroup.manager := manager cp;
                            rancherNodeGroup.id := NodePoolID rancherNode |}, None)
  end.
Proof.
  unfold Provider.NodeGroupForNode, cachedEntry, mbind, Go_bind, go_bind, call.
  destruct (RancherManager.GetCachedNodeForKubernetesNode _ _ _)
    as [[[rancherNode|] [err|]] w]; simpl; try done.
  destruct (String.eqb _ _); reflexivity.
Qed.

(** C1, as far as the code goes by design.  [NodeGroupForNode] returns a
    nil group together with an error in exactly two cases: the manager's
    cached lookup of the node's name reports an error, which is handed on as
    it is, or the node is cached with an empty pool id, which yields the
    data-integrity error. *)
Theorem NodeGroupForNode_nil_group cp node (p : Process W) err :
  fst (Provider.NodeGroupForNode cp node p) = Returns (None, Some err)
  ↔ snd (cachedEntry cp node p) = Some err
    ∨ ∃ rancherNode,
        cachedEntry cp node p = (Some rancherNode, None)
        ∧ NodePoolID rancherNode = ""
        ∧ err = errorString (missingPoolText rancherNode).
Proof.
  rewrite NodeGroupForNode_cases.
  destruct (cachedEntry cp node p) as [[rancherNode|] [lookupErr|]]; simpl.
  - split; [intros [= ->]; by left|].
    intros [[= ->]|(? & [=] & _)]; done.
  - destruct (String.eqb_spec (NodePoolID rancherNode) "") as [Hempty|Hpool].
    + split.
      * intros [= <-]. right. by exists rancherNode.
      * intros [[=]|(rn & [= <-] & _ & ->)]; done.
    + split; [done|].
      intros [[=]|(rn & [= <-] & Hempty & _)]; done.
  - split; [intros [= ->]; by left|].
    intros [[= ->]|(? & [=] & _)]; done.
  - split; [done|].
    intros [[=]|(? & [=] & _)].
Qed.

(** C2.  For a node whose cached entry has an empty pool id,
    [NodeGroupForNode] returns a nil group and the data-integrity error that
    names the entry: "missing node pool name for node <name> (<id>)". *)
Theorem NodeGroupForNode_empty_pool cp node (p : Process W) rancherNode :
  cachedEntry cp node p = (Some rancherNode, None) →
  NodePoolID rancherNode = "" →
  fst (Provider.NodeGroupForNode cp node p) =
  Returns (None,
           Some (errorString ("missing node pool name for node "
                              +:+ NodeName rancherNode
                              +:+ " (" +:+ ID rancherNode +:+ ")"))).
Proof.
  intros Hentry Hempty. rewrite NodeGroupForNode_cases, Hentry, Hempty.
  reflexivity.
Qed.

(** C3.  For a node whose cached entry has a non-empty pool id,
    [NodeGroupForNode] returns the handle of that pool, on the provider's
    manager, and a nil error; and whatever group any call resolves has a
    non-empty id and comes with a nil error. *)
Theorem NodeGroupForNode_resolves cp node (p : Process W) rancherNode :
  cachedEntry cp node p = (Some rancherNode, None) →
  NodePoolID rancherNode ≠ "" →
  fst (Provider.NodeGroupForNode cp node p) =
    Returns (Some {| rancherNodeGroup.manager := manager cp;
                     rancherNodeGroup.id := NodePoolID rancherNode |}, None)
  ∧ ∀ node' (p' : Process W) group err,
      fst (Provider.NodeGroupForNode cp node' p') = Returns (Some group, err) →
      rancherNodeGroup.id group ≠ "" ∧ err = None.
Proof.
  intros Hentry Hpool. split.
  - rewrite NodeGroupForNode_cases, Hentry.
    by destruct (String.eqb_spec (NodePoolID rancherNode) "").
  - intros node' p' group err. rewrite NodeGroupForNode_cases.
    destruct (cachedEntry cp node' p') as [[rn|] [lookupErr|]]; try done.
    destruct (String.eqb_spec (NodePoolID rn) ""); [done|].
    by intros [= <- <-].
Qed.
End Resolution.

(** C1 as stated fails on a node the cache does not know.  Such a node is
    unmanaged, yet the call does not return (nil, no-error); and the call
    returns a nil group with an error, yet the node is not cached with an
    empty pool id. *)
Lemma NodeGroupForNode_unknown_node :
  ¬ (fst (Provider.NodeGroupForNode Scripted.provider
            {| v1.Name := "worker-9" |} Scripted.process)
     = Returns (None, None)
     ↔ unmanaged Scripted.provider {| v1.Name := "worker-9" |} Scripted.process)
  ∧ ¬ (returnsNilWithError
         (fst (Provider.NodeGroupForNode Scripted.provider
                 {| v1.Name := "worker-9" |} Scripted.process))
       ↔ cachedWithEmptyPoolID Scripted.provider
           {| v1.Name := "worker-9" |} Scripted.process).
Proof.
  split.
  - intros [_ Hnil]. by specialize (Hnil eq_refl).
  - intros [Hnil _].
    destruct Hnil as (rancherNode & Hentry & _); [|discriminate Hentry].
    by exists (errorString "node not found: worker-9").
Qed.

(** The specification's scenarios, on the scripted cache. *)
Lemma NodeGroupForNode_worker_8 :
  fst (Provider.NodeGroupForNode Scripted.provider
         {| v1.Name := "worker-8" |} Scripted.process)
  = Returns (None,
             Some (errorString "missing node pool name for node worker-8 (m-8)")).
Proof.
  apply (NodeGroupForNode_empty_pool Scripted.provider {| v1.Name := "worker-8" |}
           Scripted.process
           {| NodePoolID := ""; NodeName := "worker-8"; ID := "m-8" |});
    reflexivity.
Defined.

Lemma NodeGroupForNode_worker_7 :
  fst (Provider.NodeGroupForNode Scripted.provider
         {| v1.Name := "worker-7" |} Scripted.process)
  = Returns (Some {| rancherNodeGroup.manager := tt;
                     rancherNodeGroup.id := "pool-a" |}, None).
Proof.
  apply (NodeGroupForNode_resolves Scripted.provider {| v1.Name := "worker-7" |}
           Scripted.process
           {| NodePoolID := "pool-a"; NodeName := "worker-7"; ID := "m-7" |});
    [reflexivity | discriminate].
Defined.

Section Enumeration.
Context {imports : Imports} {W Mgr : Type} {api : RancherManager.API W Mgr}.
Implicit Type cp : rancherCloudProvider Mgr.

(** [NodeGroups] returns what the manager enumerates when the manager
    reports no error, and always returns. *)
Lemma NodeGroups_cases cp (p : Process W) :
  fst (Provider.NodeGroups cp p) =
  Returns (match cachedGroups cp p with
           | (_, Some _) => []
           | (ngs, None) => ngs
           end).
Proof.
  unfold Provider.NodeGroups, cachedGroups, mbind, Go_bind, go_bind, call.
  by destruct (RancherManager.GetCachedNodeGroups _ _) as [[ngs [err|]] w].
Qed.

(** C6.  When the manager's enumeration of the cached groups fails,
    [NodeGroups] writes one error line to the log and returns no group; the
    caller gets the same result as from a provider whose manager enumerates
    zero groups, and [NodeGroups] returns normally in every case. *)
Theorem NodeGroups_enumeration_failure cp (p : Process W) ngs err :
  cachedGroups cp p = (ngs, Some err) →
  Provider.NodeGroups cp p =
    (Returns [],
     {| world := snd (RancherManager.GetCachedNodeGroups (manager cp) (world p));
        logged := logged p ++
                  [{| severity := ERROR;
                      message := "failed to get node pools: " +:+ Error err |}] |})
  ∧ (∀ cp' (p' : Process W),
       cachedGroups cp' p' = ([], None) →
       fst (Provider.NodeGroups cp p) = fst (Provider.NodeGroups cp' p'))
  ∧ (∀ cp' (p' : Process W), ∃ groups, fst (Provider.NodeGroups cp' p') = Returns groups).
Proof.
  intros Hfail. split_and!.
  - revert Hfail.
    unfold Provider.NodeGroups, cachedGroups, mbind, Go_bind, go_bind, call.
    destruct (RancherManager.GetCachedNodeGroups _ _) as [[ngs' err'] w].
    intros [= -> ->]. cbn [fst snd]. unfold klog.Errorf, log. cbn [world logged].
    by rewrite Sprintf_failed_pools.
  - intros cp' p' Hzero. by rewrite !NodeGroups_cases, Hfail, Hzero.
  - intros cp' p'. rewrite NodeGroups_cases. eauto.
Qed.
End Enumeration.

Lemma NodeGroups_connection_refused :
  Provider.NodeGroups Scripted.provider Scripted.process =
  (Returns [],
   {| world := Scripted.script;
      logged := [{| severity := ERROR;
                    message := "failed to get node pools: connection refused" |}] |}).
Proof.
  exact (proj1 (NodeGroups_enumeration_failure Scripted.provider Scripted.process
                  [] (errorString "connection refused") eq_refl)).
Defined.

Section Capabilities.
Context {imports : Imports} {W Mgr : Type}.
Implicit Type cp : rancherCloudProvider Mgr.

(** C4.  The provider that [BuildRancherCloudProvider] makes holds the
    limiter pointer it was given, and [GetResourceLimiter] returns that very
    pointer with a nil error, in whatever state the process is when it is
    called. *)
Theorem GetResourceLimiter_same_instance
    (m : Mgr) (rl : ResourceLimiterPtr) (p : Process W) :
  ∃ cp,
    BuildRancherCloudProvider m rl p = (Returns (Some cp, None), p)
    ∧ ∀ p' : Process W,
        Provider.GetResourceLimiter cp p' = (Returns (rl, None), p').
Proof. by eexists. Qed.

(** C5.  [Pricing], [GetAvailableMachineTypes] and [NewNodeGroup] all return
    normally, with a nil result and the one sentinel [ErrNotImplemented],
    for every provider, argument and state, and leave the state as it was.
    The sentinel is none of the errors built from a text. *)
Theorem optional_capabilities_unsupported cp (p : Process W)
    machineType labels systemLabels taints extraResources :
  Provider.Pricing cp p = (Returns (None, Some ErrNotImplemented), p)
  ∧ Provider.GetAvailableMachineTypes cp p
    = (Returns ([], Some ErrNotImplemented), p)
  ∧ Provider.NewNodeGroup cp machineType labels systemLabels taints extraResources p
    = (Returns (None, Some ErrNotImplemented), p)
  ∧ ∀ format args, ErrNotImplemented ≠ fmt.Errorf format args.
Proof. by split_and!. Qed.

(** C10.  [GetAvailableGPUTypes] returns the empty set for every provider
    and state, while [GPULabel] returns the label "nodes.pkds.it/gpu-node". *)
Theorem GetAvailableGPUTypes_empty cp (p : Process W) :
  Provider.GetAvailableGPUTypes cp p = (Returns ∅, p)
  ∧ Provider.GPULabel cp p = (Returns "nodes.pkds.it/gpu-node", p).
Proof. by split. Qed.
End Capabilities.

Section Construction.
Context {imports : Imports} {W Mgr : Type} {builder : RancherManager.Builder W Mgr}.

(** C7.  [BuildRancher] ends in one of two ways.  When the manager's
    constructor reports an error, it writes a fatal line and the process
    exits.  Otherwise it returns a provider whose manager is the one just
    constructed and whose limiter is the one passed in.  It returns nothing
    else, and it does not panic. *)
Theorem BuildRancher_ready_or_fatal
    (opts : AutoscalingOptions) (do : NodeGroupDiscoveryOptions)
    (rl : ResourceLimiterPtr) (p : Process W) :
  match RancherManager.BuildRancherManager (world p) with
  | (_, Some err, w) =>
      BuildRancher opts do rl p =
      (Exits,
       {| world := w;
          logged := logged p ++
                    [{| severity := FATAL;
                        message := "Failed to create Rancher Manager: "
                                   +:+ Error err |}] |})
  | (m, None, w) =>
      BuildRancher opts do rl p =
      (Returns (Some {| manager := m; resourceLimiter := rl |}),
       {| world := w; logged := logged p |})
  end
  ∧ (∀ provider,
       fst (BuildRancher opts do rl p) = Returns provider →
       ∃ m, fst (RancherManager.BuildRancherManager (world p)) = (m, None)
            ∧ provider = Some {| manager := m; resourceLimiter := rl |})
  ∧ fst (BuildRancher opts do rl p) ≠ Panics.
Proof.
  unfold BuildRancher, BuildRancherCloudProvider, mbind, Go_bind, go_bind, call.
  destruct (RancherManager.BuildRancherManager (world p)) as [[m [err|]] w];
    cbn.
  - split_and!; [|done..].
    unfold Sprintf; cbn. by rewrite append_empty_r.
  - split_and!; [done| |done].
    intros provider [= <-]. by exists m.
Qed.
End Construction.

(** ** The facade on the manager of the specification *)

Section OnSpecManager.
Context {imports : Imports} {GroupMeta : Type}.
Context (unknownNode : string → option RancherNode * option error).
Implicit Type cp : rancherCloudProvider unit.
Implicit Type p : Process (SpecManager.State GroupMeta).

Local Abbreviation specApi := (SpecManager.api unknownNode).

(** The reads of the facade see the installed index and nothing else. *)
Lemma reads_follow_index cp p p' :
  SpecManager.index (world p) = SpecManager.index (world p') →
  fst (Provider.NodeGroups (api := specApi) cp p)
  = fst (Provider.NodeGroups (api := specApi) cp p')
  ∧ ∀ node,
      fst (Provider.NodeGroupForNode (api := specApi) cp node p)
      = fst (Provider.NodeGroupForNode (api := specApi) cp node p').
Proof.
  intros Hindex. split.
  - rewrite !NodeGroups_cases. unfold cachedGroups. simpl.
    by rewrite Hindex.
  - intros node. rewrite !NodeGroupForNode_cases. unfold cachedEntry. simpl.
    unfold SpecManager.GetCachedNodeForKubernetesNode. rewrite Hindex.
    by destruct (SpecManager.nodes _ !! _).
Qed.

(** What one call of a run does to the manager of the specification: a
    [Refresh] answers with what the manager's refresh returns and leaves the
    state that refresh leaves; a read leaves the state alone. *)
Lemma invoke_on_spec_manager cp c p :
  match c with
  | CallRefresh =>
      fst (invoke (api := specApi) cp c p)
      = ReplyRefresh (Returns (fst (SpecManager.Refresh tt (world p))))
      ∧ world (snd (invoke (api := specApi) cp c p))
        = snd (SpecManager.Refresh tt (world p))
  | _ => world (snd (invoke (api := specApi) cp c p)) = world p
  end.
Proof.
  destruct c as [| |node]; unfold invoke.
  - unfold Provider.Refresh, call. simpl. destruct cp as [[] rl]. simpl.
    by destruct (SpecManager.Refresh () (world p)).
  - unfold Provider.NodeGroups, mbind, Go_bind, go_bind, call. simpl.
    reflexivity.
  - unfold Provider.NodeGroupForNode, mbind, Go_bind, go_bind, call.
    simpl. unfold SpecManager.GetCachedNodeForKubernetesNode.
    destruct (SpecManager.nodes _ !! _) as [rancherNode|]; simpl.
    + by destruct (String.eqb _ _).
    + destruct (unknownNode _) as [[rancherNode|] [err|]]; simpl; try done.
      by destruct (String.eqb _ _).
Qed.

(** A refresh whose pull fails returns the backend's failure and changes
    the state only by counting the pull. *)
Lemma Refresh_failed_pull (st : SpecManager.State GroupMeta) err :
  SpecManager.backend st (SpecManager.pulled st) = SpecManager.Failed err →
  SpecManager.Refresh tt st
  = (Some err,
     {| SpecManager.index := SpecManager.index st;
        SpecManager.backend := SpecManager.backend st;
        SpecManager.pulled := S (SpecManager.pulled st);
        SpecManager.released := SpecManager.released st |}).
Proof. intros Hpull. unfold SpecManager.Refresh. by rewrite Hpull. Qed.

(** While the backend is down, each [Refresh] of a run returns the failure
    of one of the pulls made, and the index stays as it was. *)
Lemma run_backend_down cp calls p :
  backendDown (world p) (countRefresh calls) →
  Forall2 (λ c r,
             c = CallRefresh →
             ∃ n err,
               (SpecManager.pulled (world p) ≤ n)%nat
               ∧ SpecManager.backend (world p) n = SpecManager.Failed err
               ∧ r = ReplyRefresh (Returns (Some err)))
          calls (fst (run (api := specApi) cp calls p))
  ∧ SpecManager.index (world (snd (run (api := specApi) cp calls p)))
    = SpecManager.index (world p).
Proof.
  revert p. induction calls as [|c calls IH]; intros p Hdown; simpl.
  { split; [constructor|done]. }
  pose proof (invoke_on_spec_manager cp c p) as Hstep.
  destruct (invoke cp c p) as [r p1]. specialize (IH p1).
  destruct (run cp calls p1) as [rs p2]. simpl in *.
  destruct c as [| |node].
  - destruct Hstep as [-> Hworld].
    destruct (Hdown (SpecManager.pulled (world p))) as [err Hpull];
      [simpl; lia|].
    rewrite (Refresh_failed_pull _ _ Hpull) in Hworld |- *. simpl.
    destruct IH as [Hreplies Hindex].
    { rewrite Hworld. intros n Hn. simpl in Hn |- *. apply Hdown. simpl. lia. }
    rewrite Hworld in Hreplies, Hindex. simpl in Hreplies, Hindex.
    split; [|done]. constructor.
    + intros _. by exists (SpecManager.pulled (world p)), err.
    + eapply Forall2_impl; [exact Hreplies|]. simpl.
      intros c' r' Himp Hc'. destruct (Himp Hc') as (n & err' & Hn & Hrest).
      exists n, err'. split; [lia|done].
  - rewrite Hstep in IH. destruct (IH Hdown) as [Hreplies Hindex].
    split; [|done]. by constructor.
  - rewrite Hstep in IH. destruct (IH Hdown) as [Hreplies Hindex].
    split; [|done]. by constructor.
Qed.

(** C8, on the manager of the specification.  After a [Cleanup] that
    returned no error, a second [Cleanup] returns no error either and leaves
    the process exactly as the first one left it. *)
Theorem Cleanup_idempotent cp p p1 :
  Provider.Cleanup (api := specApi) cp p = (Returns None, p1) →
  Provider.Cleanup (api := specApi) cp p1 = (Returns None, p1).
Proof.
  unfold Provider.Cleanup, call. simpl. unfold SpecManager.Cleanup.
  destruct p as [st lines]. simpl.
  destruct (SpecManager.released st) eqn:Hreleased; intros [= <-]; simpl.
  - by rewrite Hreleased.
  - reflexivity.
Qed.

(** C9, on the manager of the specification.  Take any sequence of
    [Refresh], [NodeGroups] and [NodeGroupForNode] calls during which the
    backend fails every pull.  Each [Refresh] of the sequence returns, as its
    error, the failure of a pull; the installed index stays the one the
    sequence started with; and the reads made afterwards answer as they did
    before the sequence. *)
Theorem Refresh_failure_keeps_index cp calls p :
  backendDown (world p) (countRefresh calls) →
  Forall2 (λ c r,
             c = CallRefresh →
             ∃ n err,
               (SpecManager.pulled (world p) ≤ n)%nat
               ∧ SpecManager.backend (world p) n = SpecManager.Failed err
               ∧ r = ReplyRefresh (Returns (Some err)))
          calls (fst (run (api := specApi) cp calls p))
  ∧ SpecManager.index (world (snd (run (api := specApi) cp calls p)))
    = SpecManager.index (world p)
  ∧ fst (Provider.NodeGroups (api := specApi) cp
           (snd (run (api := specApi) cp calls p)))
    = fst (Provider.NodeGroups (api := specApi) cp p)
  ∧ ∀ node,
      fst (Provider.NodeGroupForNode (api := specApi) cp node
             (snd (run (api := specApi) cp calls p)))
      = fst (Provider.NodeGroupForNode (api := specApi) cp node p).
Proof.
  intros Hdown.
  destruct (run_backend_down cp calls p Hdown) as [Hreplies Hindex].
  split; [done|]. split; [done|]. by apply reads_follow_index.
Qed.
End OnSpecManager.

(** The manager of the specification with its backend down. *)
Lemma Cleanup_twice_stalled :
  Provider.Cleanup (api := SpecManager.api SpecManager.reportUnknown)
    Scripted.provider
    {| world := snd (SpecManager.Cleanup tt SpecManager.stalled); logged := [] |}
  = (Returns None,
     {| world := snd (SpecManager.Cleanup tt SpecManager.stalled); logged := [] |}).
Proof.
  apply (Cleanup_idempotent SpecManager.reportUnknown Scripted.provider
           {| world := SpecManager.stalled; logged := [] |}).
  reflexivity.
Defined.

Lemma Refresh_stalled_keeps_index :
  SpecManager.index
    (world (snd (run (api := SpecManager.api SpecManager.reportUnknown)
                   Scripted.provider
                   [CallRefresh; CallNodeGroups;
                    CallNodeGroupForNode {| v1.Name := "worker-7" |}; CallRefresh]
                   {| world := SpecManager.stalled; logged := [] |})))
  = SpecManager.index SpecManager.stalled.
Proof.
  apply (Refresh_failure_keeps_index SpecManager.reportUnknown Scripted.provider
           [CallRefresh; CallNodeGroups;
            CallNodeGroupForNode {| v1.Name := "worker-7" |}; CallRefresh]
           {| world := SpecManager.stalled; logged := [] |}).
  intros n _. by exists (errorString "backend unreachable").
Defined.

(** * Further properties of the facade *)

Section Lookups.
Context {imports : Imports} {W Mgr : Type} {api : RancherManager.API W Mgr}.
Implicit Type cp : rancherCloudProvider Mgr.

(** X1.  When the manager enumerates its groups without error, [NodeGroups]
    returns that very list, in the same order, writes nothing to the log,
    and leaves the world as the enumeration left it. *)
Theorem NodeGroups_returns_enumeration cp (p : Process W) ngs :
  cachedGroups cp p = (ngs, None) →
  Provider.NodeGroups cp p =
  (Returns ngs,
   {| world := snd (RancherManager.GetCachedNodeGroups (manager cp) (world p));
      logged := logged p |}).
Proof.
  unfold Provider.NodeGroups, cachedGroups, mbind, Go_bind, go_bind, call.
  destruct (RancherManager.GetCachedNodeGroups _ _) as [[ngs' err'] w].
  by intros [= -> ->].
Qed.


(** X3.  Called on a node pointer, [NodeGroupForNode] panics exactly when
    the pointer is nil or the manager's lookup answers with a nil node and a
    nil error; on a nil pointer it panics before the manager is asked, with
    the process as it was. *)
Theorem NodeGroupForNode_panics_iff cp (node : option v1.Node) (p : Process W) :
  (fst (NodeGroupForNodePtr cp node p) = Panics
   ↔ node = None
     ∨ ∃ target, node = Some target ∧ cachedEntry cp target p = (None, None))
  ∧ (node = None → NodeGroupForNodePtr cp node p = (Panics, p)).
Proof.
  destruct node as [target|]; unfold NodeGroupForNodePtr, mbind, Go_bind, go_bind;
    simpl; [|naive_solver].
  split; [|done].
  destruct (Provider.NodeGroupForNode cp target p) as [o p1] eqn:Hcall.
  pose proof (NodeGroupForNode_cases cp target p) as Hcases.
  rewrite Hcall in Hcases. simpl in *. subst o.
  destruct (cachedEntry cp target p) as [[rancherNode|] [err|]] eqn:Hentry.
  - split; [done|]. intros [[=]|(? & [= <-] & Hnone)]. congruence.
  - destruct (String.eqb _ _);
      (split; [done|]); intros [[=]|(? & [= <-] & Hnone)]; congruence.
  - split; [done|]. intros [[=]|(? & [= <-] & Hnone)]. congruence.
  - split; [|done]. intros _. right. by exists target.
Qed.

(** X4.  A group that [NodeGroupForNode] returns always comes from the
    cache: the lookup of the node's name answered, without error, with an
    entry whose pool id is the group's id, and the group asks the provider's
    own manager. *)
Theorem NodeGroupForNode_group_is_cached cp node (p : Process W) group err :
  fst (Provider.NodeGroupForNode cp node p) = Returns (Some group, err) →
  ∃ rancherNode,
    cachedEntry cp node p = (Some rancherNode, None)
    ∧ rancherNodeGroup.id group = NodePoolID rancherNode
    ∧ rancherNodeGroup.manager group = manager cp.
Proof.
  rewrite NodeGroupForNode_cases.
  destruct (cachedEntry cp node p) as [[rancherNode|] [lookupErr|]]; try done.
  destruct (String.eqb _ _); [done|].
  intros [= <- <-]. by exists rancherNode.
Qed.
End Lookups.

Lemma NodeGroups_two_pools :
  Provider.NodeGroups Scripted.provider Scenario.running =
  (Returns [Some {| rancherNodeGroup.manager := tt; rancherNodeGroup.id := "pool-a" |};
            Some {| rancherNodeGroup.manager := tt; rancherNodeGroup.id := "pool-b" |}],
   Scenario.running).
Proof.
  exact (NodeGroups_returns_enumeration Scripted.provider Scenario.running _ eq_refl).
Defined.

Lemma NodeGroupForNode_worker_7_is_cached :
  ∃ rancherNode,
    cachedEntry Scripted.provider {| v1.Name := "worker-7" |} Scripted.process
    = (Some rancherNode, None)
    ∧ "pool-a" = NodePoolID rancherNode
    ∧ tt = manager Scripted.provider.
Proof.
  exact (NodeGroupForNode_group_is_cached Scripted.provider
           {| v1.Name := "worker-7" |} Scripted.process
           {| rancherNodeGroup.manager := tt; rancherNodeGroup.id := "pool-a" |}
           None eq_refl).
Defined.

Section Building.
Context {imports : Imports} {W Mgr : Type} {builder : RancherManager.Builder W Mgr}.

(** X5.  Whatever [BuildRancher] returns is a provider, not nil, and asking
    it for its limiter, in any later state, gives back the pointer that
    [BuildRancher] was given, with a nil error; nothing was logged while
    building. *)
Theorem BuildRancher_limiter_round_trip
    (opts : AutoscalingOptions) (do : NodeGroupDiscoveryOptions)
    (rl : ResourceLimiterPtr) (p p1 : Process W) provider :
  BuildRancher opts do rl p = (Returns provider, p1) →
  ∃ cp,
    provider = Some cp
    ∧ logged p1 = logged p
    ∧ ∀ p' : Process W,
        Provider.GetResourceLimiter cp p' = (Returns (rl, None), p').
Proof.
  unfold BuildRancher, BuildRancherCloudProvider, mbind, Go_bind, go_bind, call.
  destruct (RancherManager.BuildRancherManager (world p)) as [[m [err|]] w];
    cbn; [done|].
  intros [= <- <-]. by eexists.
Qed.
End Building.

Lemma BuildRancher_scripted_round_trip :
  ∃ cp,
    Some {| manager := tt; resourceLimiter := Some 7%N |} = Some cp
    ∧ logged Scripted.process = logged Scripted.process
    ∧ ∀ p' : Process Scripted.Script,
        Provider.GetResourceLimiter cp p' = (Returns (Some 7%N, None), p').
Proof.
  exact (BuildRancher_limiter_round_trip (imports := Scripted.imports)
           tt tt (Some 7%N) Scripted.process Scripted.process _ eq_refl).
Defined.

Section MethodSequences.
Context {imports : Imports} {W Mgr : Type} {api : RancherManager.API W Mgr}.
Implicit Type cp : rancherCloudProvider Mgr.

(** How a sequence goes on after its first call. *)
Lemma performAll_cons cp m ms (p : Process W) :
  performAll cp (m :: ms) p =
  match perform cp m p with
  | (Returns _, p') => performAll cp ms p'
  | (Panics, p') => (Panics, p')
  | (Exits, p') => (Exits, p')
  end.
Proof. reflexivity. Qed.

End MethodSequences.

Section ManagerFree.
Context {imports : Imports} {W Mgr : Type} {api : RancherManager.API W Mgr}.
Implicit Type cp : rancherCloudProvider Mgr.

(** X8.  A sequence made only of [Name], [Pricing],
    [GetAvailableMachineTypes], [NewNodeGroup], [GetResourceLimiter],
    [GPULabel] and [GetAvailableGPUTypes] calls returns and leaves the
    process, world and log, exactly as it was. *)
Theorem performAll_manager_free cp ms (p : Process W) :
  forallb managerFree ms = true →
  performAll cp ms p = (Returns tt, p).
Proof.
  induction ms as [|m ms IH]; [done|].
  intros [Hm Hms]%andb_prop. rewrite performAll_cons.
  by destruct m; try discriminate Hm; simpl; apply IH.
Qed.
End ManagerFree.

Lemma performAll_queries_keep_process :
  performAll Scripted.provider
    [MName; MPricing; MGetResourceLimiter; MGPULabel; MGetAvailableGPUTypes;
     MNewNodeGroup "m5.large" ∅ ∅ [] ∅; MGetAvailableMachineTypes]
    Scenario.running
  = (Returns tt, Scenario.running).
Proof.
  apply (performAll_manager_free Scripted.provider). reflexivity.
Defined.
